(** * The linear-regression training loop of the PyTorch introduction notebook

    The notebook `1 - PyTorch Introduction/intro.ipynb` trains a linear model
    [y_hat = dot(w, x) + b] by gradient descent, with gradients supplied by
    autograd ([loss.backward()]).  This development embeds

    - the tensors the notebook uses (0-dimensional and 1-dimensional), with
      the broadcasting rules its expressions rely on;
    - the dynamic computational graph that autograd records and the
      reverse-mode pass that fills in the [.grad] fields of the leaves;
    - the configuration cell and the training-loop cell, in both recorded
      versions of the notebook (sum-reduction, mean-reduction);

    and proves the properties of the loop over it.

    Numbers are exact rationals ([Qc]): every finite float is one, and the
    rounding, overflow and not-a-number values of float32 arithmetic are
    abstracted away.  The theorems about the loop are stated on the
    expressions the code evaluates, operation by operation.  Where a
    property would depend on the algebra of exact numbers, the expression
    is also evaluated in binary32 ([Float32]) to see what the code itself
    computes. *)

From Stdlib Require Import List ZArith QArith Qabs Qcanon Lia Bool Arith.
From Stdlib Require Import SpecFloat.
Import ListNotations.

Local Open Scope Qc_scope.

(** ** Option as the error monad

    A Python exception (shape mismatch, [None] where a tensor is expected)
    is [None]. *)

Definition bind {A B : Type} (m : option A) (k : A -> option B) : option B :=
  match m with
  | Some a => k a
  | None => None
  end.

Notation "x <- m ;; k" := (bind m (fun x => k))
  (at level 100, m at next level, right associativity).

(** ** Tensors *)

Module Tensor.

(** [torch.dot], [torch.sum] and [torch.mean] return 0-dimensional
    tensors; [torch.rand([N])], [torch.ones([1])] are 1-dimensional. *)
Inductive tensor : Type :=
| Scalar (v : Qc)
| Vec (l : list Qc).

Definition data (t : tensor) : list Qc :=
  match t with
  | Scalar v => [v]
  | Vec l => l
  end.

Definition numel (t : tensor) : nat := length (data t).

Definition same_shape (s t : tensor) : bool :=
  match s, t with
  | Scalar _, Scalar _ => true
  | Vec l1, Vec l2 => length l1 =? length l2
  | _, _ => false
  end.

Definition of_nat (n : nat) : Qc := Q2Qc (inject_Z (Z.of_nat n)).

Definition total (l : list Qc) : Qc := fold_right Qcplus 0 l.

Fixpoint map2 (f : Qc -> Qc -> Qc) (l1 l2 : list Qc) : list Qc :=
  match l1, l2 with
  | a :: l1', b :: l2' => f a b :: map2 f l1' l2'
  | _, _ => []
  end.

Definition tmap (f : Qc -> Qc) (t : tensor) : tensor :=
  match t with
  | Scalar v => Scalar (f v)
  | Vec l => Vec (map f l)
  end.

(** [torch.ones([n])], [torch.zeros_like(t)]. *)
Definition ones (n : nat) : tensor := Vec (repeat 1 n).
Definition zeros_like (t : tensor) : tensor := tmap (fun _ => 0) t.

(** Elementwise binary operation with broadcasting: a 0-dimensional
    operand, or a 1-dimensional operand of length one, is stretched to the
    other operand's shape; any other pair of different lengths is an
    error. *)
Definition broadcast (f : Qc -> Qc -> Qc) (s t : tensor) : option tensor :=
  match s, t with
  | Scalar u, Scalar v => Some (Scalar (f u v))
  | Scalar u, Vec l => Some (Vec (map (f u) l))
  | Vec l, Scalar v => Some (Vec (map (fun e => f e v) l))
  | Vec l1, Vec l2 =>
      if length l1 =? length l2 then Some (Vec (map2 f l1 l2))
      else match l1, l2 with
           | [u], _ => Some (Vec (map (f u) l2))
           | _, [v] => Some (Vec (map (fun e => f e v) l1))
           | _, _ => None
           end
  end.

Definition add := broadcast Qcplus.
Definition sub := broadcast Qcminus.
Definition mul := broadcast Qcmult.

(** [torch.dot]: both operands 1-dimensional with the same number of
    elements.  The products are summed exactly; what rounding does to such
    a sum is looked at in [Float32]. *)
Definition dot (s t : tensor) : option tensor :=
  match s, t with
  | Vec l1, Vec l2 =>
      if length l1 =? length l2
      then Some (Scalar (total (map2 Qcmult l1 l2)))
      else None
  | _, _ => None
  end.

(** [torch.mean] of an empty tensor is not-a-number, which [Qc] does not
    have; [mean] is only used below on tensors with at least one
    element. *)
Definition pow (t : tensor) (k : nat) : tensor := tmap (fun e => e ^ k) t.
Definition sum (t : tensor) : tensor := Scalar (total (data t)).
Definition mean (t : tensor) : tensor :=
  Scalar (total (data t) / of_nat (numel t)).

(** A python float times a tensor. *)
Definition scale (c : Qc) (t : tensor) : tensor := tmap (Qcmult c) t.

(** In-place [s -= t]: the broadcast result must keep the shape of [s]. *)
Definition isub (s t : tensor) : option tensor :=
  r <- sub s t ;;
  if same_shape r s then Some r else None.

(** In-place [s += t], as the gradient accumulation does. *)
Definition iadd (s t : tensor) : option tensor :=
  r <- add s t ;;
  if same_shape r s then Some r else None.

(** The gradient that flows back into an operand that was broadcast: the
    stretched dimension is summed out; [v] is the operand's value, [g] the
    gradient in the shape of the result. *)
Definition unbroadcast (v g : tensor) : tensor :=
  match v, g with
  | Scalar _, Vec l => Scalar (total l)
  | Vec l0, Vec l => if length l0 =? length l then g else Vec [total l]
  | _, _ => g
  end.

(** [t.item()]: the number held by a tensor of exactly one element. *)
Definition item (t : tensor) : option Qc :=
  match data t with
  | [v] => Some v
  | _ => None
  end.

(** Equality test on tensors, by value of the numbers. *)
Definition tensor_eqb (s t : tensor) : bool :=
  match s, t with
  | Scalar u, Scalar v => Qeq_bool u v
  | Vec l1, Vec l2 =>
      (length l1 =? length l2)
      && forallb (fun p => Qeq_bool (this (fst p)) (this (snd p)))
           (combine l1 l2)
  | _, _ => false
  end.

(** A gradient of value [c] in every position of the shape of [v]. *)
Definition fill_like (v : tensor) (c : Qc) : tensor := tmap (fun _ => c) v.

End Tensor.
Import Tensor.

(** ** Autograd: the dynamic computational graph and its backward pass *)

Module Autograd.

(** The tensors created with [requires_grad=True]. *)
Inductive leaf : Type := W | B.

(** The graph recorded for an expression.  [Const] is a tensor without
    gradient history ([x], [y], python numbers). *)
Inductive node : Type :=
| Leaf (p : leaf)
| Const (t : tensor)
| Add (u v : node)
| Sub (u v : node)
| Mul (u v : node)
| Dot (u v : node)
| Pow (u : node) (k : nat)
| Sum (u : node)
| Mean (u : node).

(** Values of the leaves and their [.grad] fields ([None] until a
    backward pass reaches the leaf). *)
Record params : Type := { pW : tensor; pB : tensor }.
Record grads : Type := { gW : option tensor; gB : option tensor }.

Definition value (ps : params) (p : leaf) : tensor :=
  match p with W => pW ps | B => pB ps end.

Definition grad (gs : grads) (p : leaf) : option tensor :=
  match p with W => gW gs | B => gB gs end.

Definition set_grad (gs : grads) (p : leaf) (g : tensor) : grads :=
  match p with
  | W => {| gW := Some g; gB := gB gs |}
  | B => {| gW := gW gs; gB := Some g |}
  end.

(** Forward evaluation. *)
Fixpoint eval (ps : params) (e : node) : option tensor :=
  match e with
  | Leaf p => Some (value ps p)
  | Const t => Some t
  | Add u v => a <- eval ps u ;; b <- eval ps v ;; add a b
  | Sub u v => a <- eval ps u ;; b <- eval ps v ;; sub a b
  | Mul u v => a <- eval ps u ;; b <- eval ps v ;; mul a b
  | Dot u v => a <- eval ps u ;; b <- eval ps v ;; dot a b
  | Pow u k => a <- eval ps u ;; Some (pow a k)
  | Sum u => a <- eval ps u ;; Some (sum a)
  | Mean u => a <- eval ps u ;; Some (mean a)
  end.

(** A leaf accumulates: the first gradient is stored, later ones are
    added to what is there. *)
Definition accumulate (gs : grads) (p : leaf) (g : tensor) : option grads :=
  match grad gs p with
  | None => Some (set_grad gs p g)
  | Some old => r <- iadd old g ;; Some (set_grad gs p r)
  end.

(** Reverse pass: [g] is the gradient of the output with respect to the
    value of [e]; each operation hands its operands their share. *)
Fixpoint backprop (ps : params) (e : node) (g : tensor) (gs : grads)
  : option grads :=
  match e with
  | Leaf p => accumulate gs p g
  | Const _ => Some gs
  | Add u v =>
      a <- eval ps u ;; b <- eval ps v ;;
      gs1 <- backprop ps u (unbroadcast a g) gs ;;
      backprop ps v (unbroadcast b g) gs1
  | Sub u v =>
      a <- eval ps u ;; b <- eval ps v ;;
      gs1 <- backprop ps u (unbroadcast a g) gs ;;
      backprop ps v (unbroadcast b (tmap Qcopp g)) gs1
  | Mul u v =>
      a <- eval ps u ;; b <- eval ps v ;;
      ga <- mul g b ;; gb <- mul g a ;;
      gs1 <- backprop ps u (unbroadcast a ga) gs ;;
      backprop ps v (unbroadcast b gb) gs1
  | Dot u v =>
      a <- eval ps u ;; b <- eval ps v ;;
      ga <- mul g b ;; gb <- mul g a ;;
      gs1 <- backprop ps u ga gs ;;
      backprop ps v gb gs1
  | Pow u k =>
      a <- eval ps u ;;
      ga <- mul g (scale (of_nat k) (pow a (Nat.pred k))) ;;
      backprop ps u ga gs
  | Sum u =>
      a <- eval ps u ;;
      backprop ps u (fill_like a (total (data g))) gs
  | Mean u =>
      a <- eval ps u ;;
      backprop ps u (fill_like a (total (data g) / of_nat (numel a))) gs
  end.

(** [e.backward()]: only for an output of one element, seeded with 1. *)
Definition backward (ps : params) (e : node) (gs : grads) : option grads :=
  out <- eval ps e ;;
  if numel out =? 1 then backprop ps e (fill_like out 1) gs else None.

End Autograd.
Import Autograd.

(** ** The random number generator

    [torch.rand] and [torch.randn] draw from the library's global
    generator, which the notebook does not implement.  All the loop needs
    of it is that a draw of size [n] returns [n] numbers and a new
    generator state. *)

Class Generator (G : Type) : Type := {
  rand : nat -> G -> list Qc * G;
  randn : nat -> G -> list Qc * G;
  rand_length : forall n g, length (fst (rand n g)) = n;
  randn_length : forall n g, length (fst (randn n g)) = n
}.

(** ** The configuration cell and the training loop *)

Module Trainer.

(** [torch.sum] in the first recorded version of the notebook,
    [torch.mean] in the second. *)
Inductive reduction : Type := RSum | RMean.

(** What the two versions of the cells differ in, and the three
    hyper-parameters of the configuration cell.  [epochs] is a python
    integer; tensor sizes are naturals (the tensor constructors reject a
    negative size). *)
Record config : Type := {
  slope : Qc;           (* [3 *] / [2 *] *)
  offset : Qc;          (* [- 2] / [- 5] *)
  reduce : reduction;
  learning_rate : Qc;
  epochs : Z;
  N : nat
}.

Definition variant1 : config :=
  {| slope := Q2Qc 3; offset := Q2Qc 2; reduce := RSum;
     learning_rate := Q2Qc 0.01; epochs := 200; N := 10 |}.

Definition variant2 : config :=
  {| slope := Q2Qc 2; offset := Q2Qc 5; reduce := RMean;
     learning_rate := Q2Qc 0.01; epochs := 200; N := 10 |}.

(** The mutable objects of the notebook: [w], [b] and their [.grad]. *)
Record state : Type := {
  w : tensor;
  b : tensor;
  w_grad : option tensor;
  b_grad : option tensor
}.

Definition params_of (st : state) : params := {| pW := w st; pB := b st |}.
Definition grads_of (st : state) : grads :=
  {| gW := w_grad st; gB := b_grad st |}.
Definition no_grads : grads := {| gW := None; gB := None |}.

(** [y = torch.dot(3*torch.ones([N]), x) - 2] *)
Definition target_graph (cfg : config) (x : tensor) : node :=
  Sub (Dot (Mul (Const (Scalar (slope cfg))) (Const (ones (N cfg))))
           (Const x))
      (Const (Scalar (offset cfg))).

Definition target (cfg : config) (x : tensor) : option tensor :=
  eval {| pW := Scalar 0; pB := Scalar 0 |} (target_graph cfg x).

(** [y_hat = torch.dot(w, x) + b] *)
Definition y_hat_graph (x : tensor) : node :=
  Add (Dot (Leaf W) (Const x)) (Leaf B).

(** [loss = torch.sum((y_hat - y)**2)], or [torch.mean]. *)
Definition loss_graph (r : reduction) (x y : tensor) : node :=
  let sq := Pow (Sub (y_hat_graph x) (Const y)) 2 in
  match r with
  | RSum => Sum sq
  | RMean => Mean sq
  end.

Definition loss (cfg : config) (x : tensor) (st : state) : option tensor :=
  y <- target cfg x ;;
  eval (params_of st) (loss_graph (reduce cfg) x y).

(** The [.grad] fields after [loss.backward()]: what the update reads. *)
Definition grads_read (cfg : config) (x : tensor) (st : state)
  : option grads :=
  y <- target cfg x ;;
  backward (params_of st) (loss_graph (reduce cfg) x y) (grads_of st).

(** The gradient of this iteration's loss alone: the same backward pass
    into empty accumulators. *)
Definition fresh_grads (cfg : config) (x : tensor) (st : state)
  : option grads :=
  y <- target cfg x ;;
  backward (params_of st) (loss_graph (reduce cfg) x y) no_grads.

(** One pass through the loop body, for the sample [x] drawn in it. *)
Definition step (cfg : config) (x : tensor) (st : state) : option state :=
  gs <- grads_read cfg x st ;;
  gw <- gW gs ;;
  gb <- gB gs ;;
  w' <- isub (w st) (scale (learning_rate cfg) gw) ;;
  b' <- isub (b st) (scale (learning_rate cfg) gb) ;;
  Some {| w := w'; b := b';
          w_grad := Some (zeros_like gw);
          b_grad := Some (zeros_like gb) |}.

Section WithGenerator.

Context {G : Type} {rng : Generator G}.

(** The configuration cell: [w = torch.rand([N])], [b = torch.ones([1])]. *)
Definition init (cfg : config) (g : G) : state * G :=
  let (w0, g') := rand (N cfg) g in
  ({| w := Vec w0; b := ones 1; w_grad := None; b_grad := None |}, g').

(** [for i in range(epochs)], run for [n] iterations. *)
Fixpoint loop (cfg : config) (n : nat) (st : state) (g : G)
  : option (state * G) :=
  match n with
  | O => Some (st, g)
  | S n' =>
      let (x, g') := randn (N cfg) g in
      st' <- step cfg (Vec x) st ;;
      loop cfg n' st' g'
  end.

Definition train (cfg : config) (seed : G) : option (state * G) :=
  let (st, g) := init cfg seed in
  loop cfg (Z.to_nat (epochs cfg)) st g.

(** The same loop, recording the state at the start of every iteration
    and the final one. *)
Fixpoint loop_trace (cfg : config) (n : nat) (st : state) (g : G)
  : option (list state) :=
  match n with
  | O => Some [st]
  | S n' =>
      let (x, g') := randn (N cfg) g in
      st' <- step cfg (Vec x) st ;;
      tr <- loop_trace cfg n' st' g' ;;
      Some (st :: tr)
  end.

Definition train_trace (cfg : config) (seed : G) : option (list state) :=
  let (st, g) := init cfg seed in
  loop_trace cfg (Z.to_nat (epochs cfg)) st g.

(** The samples the loop draws, in order. *)
Fixpoint draws (cfg : config) (n : nat) (g : G) : list (list Qc) :=
  match n with
  | O => []
  | S n' => let (x, g') := randn (N cfg) g in x :: draws cfg n' g'
  end.

Definition train_draws (cfg : config) (seed : G) : list (list Qc) :=
  draws cfg (Z.to_nat (epochs cfg)) (snd (init cfg seed)).

End WithGenerator.

(** The loop over samples given in advance. *)
Fixpoint run (cfg : config) (xs : list (list Qc)) (st : state)
  : option (list state) :=
  match xs with
  | [] => Some [st]
  | x :: xs' =>
      st' <- step cfg (Vec x) st ;;
      tr <- run cfg xs' st' ;;
      Some (st :: tr)
  end.

(** *** Closed forms

    What the notebook leaves to autograd, written out: the prediction,
    the target, the gradients of the squared error and one step of
    descent along them. *)

Definition prediction (wl : list Qc) (b0 : Qc) (x : list Qc) : Qc :=
  total (map2 Qcmult wl x) + b0.

Definition intercept (cfg : config) : Qc := - offset cfg.

Definition truth (cfg : config) (x : list Qc) : Qc :=
  slope cfg * total x + intercept cfg.

Definition two : Qc := Q2Qc 2.

Definition grad_w_closed (err : Qc) (x : list Qc) : list Qc :=
  map (fun xi => two * err * xi) x.

Definition grad_b_closed (err : Qc) : Qc := two * err.

Definition descend (lr : Qc) (l gl : list Qc) : list Qc :=
  map2 (fun wi gi => wi - lr * gi) l gl.

(** *** Properties of the states of the loop *)

(** An accumulator that holds nothing from an earlier loss: unset, or
    zero. *)
Definition cleared (n : nat) (g : option tensor) : Prop :=
  g = None \/ g = Some (Vec (repeat 0 n)).

Definition zeroed (n : nat) (g : option tensor) : Prop :=
  g = Some (Vec (repeat 0 n)).

(** The shapes of the configuration cell, with cleared accumulators. *)
Record loop_state (n : nat) (st : state) : Prop := {
  ls_w : exists wl, w st = Vec wl /\ length wl = n;
  ls_b : exists b0, b st = Vec [b0];
  ls_w_grad : cleared n (w_grad st);
  ls_b_grad : cleared 1 (b_grad st)
}.

(** Every iteration of the trace [tr] starts with zero accumulators. *)
Definition starts_zeroed (cfg : config) (tr : list state) : Prop :=
  forall i st,
    (i < Z.to_nat (epochs cfg))%nat -> nth_error tr i = Some st ->
    zeroed (N cfg) (w_grad st) /\ zeroed 1 (b_grad st).

(** The same cells with the other reduction. *)
Definition set_reduce (r : reduction) (cfg : config) : config :=
  {| slope := slope cfg; offset := offset cfg; reduce := r;
     learning_rate := learning_rate cfg; epochs := epochs cfg;
     N := N cfg |}.

(** A configuration the specification calls invalid. *)
Definition invalid (cfg : config) : Prop :=
  (epochs cfg <= 0)%Z \/ (N cfg <= 0)%nat \/ learning_rate cfg <= 0.

(** *** The other cells *)

(** The autograd example: [y = x + c], [z = y*y + d], [t = torch.sum(z)],
    with [x] at the leaf [W] ([c = 5], [d = 1] in the first version of the
    notebook, [c = 1], [d = 3] in the second). *)
Definition toy_graph (c d : Qc) : node :=
  let y := Add (Leaf W) (Const (Scalar c)) in
  Sum (Add (Mul y y) (Const (Scalar d))).

(** [print(torch.mean(w).item(), b.item())] *)
Definition report (st : state) : option (Qc * Qc) :=
  m <- item (mean (w st)) ;;
  bi <- item (b st) ;;
  Some (m, bi).

(** [v] lies within [tol] of [c]. *)
Definition within (tol c v : Qc) : bool :=
  Qle_bool (Qabs (this v - this c)) (this tol).

(** *** Small configurations for examples *)

Definition small (r : reduction) (lr : Qc) (n : Z) : config :=
  {| slope := Q2Qc 3; offset := Q2Qc 2; reduce := r;
     learning_rate := lr; epochs := n; N := 2 |}.

(** Samples for a run of [small]: the initial [w], then two inputs. *)
Definition samples : list Qc :=
  [Q2Qc 0.5; Q2Qc 0.25; 1; Q2Qc 2; Q2Qc (-1); 0].

End Trainer.
Import Trainer.

(** ** The target expression in exact and in binary32 arithmetic

    The two expressions that the target is described by, over any
    arithmetic: the one the loop evaluates and the affine function of the
    sum of the inputs. *)

Module Expr.

Section Arithmetic.

Context {T : Type}.
Variables (zero one : T) (add mul sub : T -> T -> T).

Definition total (l : list T) : T := fold_right add zero l.

Fixpoint map2 (f : T -> T -> T) (l1 l2 : list T) : list T :=
  match l1, l2 with
  | a :: l1', c :: l2' => f a c :: map2 f l1' l2'
  | _, _ => []
  end.

(** [torch.dot(a*torch.ones([n]), x) - k] *)
Definition target (a k : T) (n : nat) (x : list T) : T :=
  sub (total (map2 mul (map (mul a) (repeat one n)) x)) k.

(** [a * sum(x) + c] *)
Definition affine (a c : T) (x : list T) : T :=
  add (mul a (total x)) c.

End Arithmetic.

End Expr.

(** Exact rationals, the arithmetic of [Tensor]. *)
Module Exact.

Definition target : Qc -> Qc -> nat -> list Qc -> Qc :=
  Expr.target 0 1 Qcplus Qcmult Qcminus.

Definition affine : Qc -> Qc -> list Qc -> Qc :=
  Expr.affine 0 Qcplus Qcmult.

End Exact.

(** IEEE 754 binary32, the arithmetic of the notebook's tensors: 24 bits of
    precision, round to nearest even.  The products of a dot product are
    summed one after the other; on the two-element inputs used below the
    products are exact and every order of summation gives the same
    result. *)
Module Float32.

Definition prec : Z := 24.
Definition emax : Z := 128.

Definition float32 : Type := spec_float.

Definition add : float32 -> float32 -> float32 := SFadd prec emax.
Definition mul : float32 -> float32 -> float32 := SFmul prec emax.
Definition sub : float32 -> float32 -> float32 := SFsub prec emax.
Definition opp : float32 -> float32 := SFopp.

(** The float nearest to [m * 2^e]. *)
Definition lit (m e : Z) : float32 := binary_normalize prec emax m e false.

Definition zero : float32 := S754_zero false.
Definition one : float32 := lit 1 0.

Definition target : float32 -> float32 -> nat -> list float32 -> float32 :=
  Expr.target zero one add mul sub.

Definition affine : float32 -> float32 -> list float32 -> float32 :=
  Expr.affine zero add mul.

End Float32.

(** ** A generator for examples: replaying a tape of samples

    The state is the list of numbers still to be handed out; a draw takes
    them from the front (zeros once the tape is exhausted). *)

Module Tape.

Definition draw (n : nat) (tape : list Qc) : list Qc * list Qc :=
  (firstn n (tape ++ repeat 0 n), skipn n tape).

Lemma draw_length n tape : length (fst (draw n tape)) = n.
Proof.
  unfold draw; simpl.
  rewrite length_firstn, length_app, repeat_length. lia.
Qed.

#[global] Instance generator : Generator (list Qc) :=
  {| rand := draw; randn := draw;
     rand_length := draw_length; randn_length := draw_length |}.

End Tape.

(** ** Arithmetic of sums and dot products *)

Section Sums.

Lemma map2_length f l1 l2 :
  length l1 = length l2 -> length (map2 f l1 l2) = length l1.
Proof.
  revert l2; induction l1 as [|a l1 IH]; intros [|c l2] H; simpl in *;
    try discriminate; auto.
Qed.

Lemma total_scaled c l : total (map (Qcmult c) l) = c * total l.
Proof.
  induction l as [|a l IH]; simpl.
  - ring.
  - rewrite IH. ring.
Qed.

(** [dot(a * ones(n), x) = a * sum(x)] *)
Lemma dot_scaled_ones a n x :
  length x = n ->
  total (map2 Qcmult (map (Qcmult a) (repeat 1 n)) x) = a * total x.
Proof.
  revert n; induction x as [|xi x IH]; intros [|n] H; simpl in *;
    try discriminate.
  - ring.
  - rewrite (IH n) by congruence. ring.
Qed.

Lemma map2_zero_l f n l :
  (forall e, f 0 e = e) -> length l = n -> map2 f (repeat 0 n) l = l.
Proof.
  intros Hf; revert n; induction l as [|a l IH]; intros [|n] H; simpl in *;
    try discriminate; auto.
  rewrite Hf, IH by congruence. reflexivity.
Qed.

Lemma map_const_zero (l : list Qc) :
  map (fun _ => 0) l = repeat 0 (length l).
Proof. induction l; simpl; congruence. Qed.

Lemma map2_sub_scaled c wl gl :
  length wl = length gl ->
  map2 Qcminus wl (map (Qcmult c) gl)
  = map2 (fun wi gi => wi - c * gi) wl gl.
Proof.
  revert gl; induction wl as [|a wl IH]; intros [|g gl] H; simpl in *;
    try discriminate; auto.
  rewrite IH by congruence. reflexivity.
Qed.

End Sums.

(** ** The notebook's own autograd example

    [x = torch.ones([3,2])], [y = x + 5], [z = y*y + 1], [t = torch.sum(z)]
    prints [tensor(222.)] and [x.grad] is 12 everywhere; the later version
    of the notebook has [y = x + 1], [z = y*y + 3] with 42 and 4.  The six
    elements are laid out in one dimension, and [x] sits at the leaf [W]. *)

Section NotebookExample.

Let t_graph (c d : Qc) : node :=
  let y := Add (Leaf W) (Const (Scalar c)) in
  Sum (Add (Mul y y) (Const (Scalar d))).

Let ps : params := {| pW := ones 6; pB := ones 1 |}.

Let same (s t : option tensor) : bool :=
  match s, t with
  | Some u, Some v => tensor_eqb u v
  | _, _ => false
  end.

Example t_value_222 :
  same (eval ps (t_graph (Q2Qc 5) 1)) (Some (Scalar (Q2Qc 222))) = true.
Proof. vm_compute. reflexivity. Qed.

Example x_grad_12 :
  same (g <- backward ps (t_graph (Q2Qc 5) 1) {| gW := None; gB := None |} ;;
        gW g)
       (Some (Vec (repeat (Q2Qc 12) 6))) = true.
Proof. vm_compute. reflexivity. Qed.

Example t_value_42 :
  same (eval ps (t_graph 1 (Q2Qc 3))) (Some (Scalar (Q2Qc 42))) = true.
Proof. vm_compute. reflexivity. Qed.

Example x_grad_4 :
  same (g <- backward ps (t_graph 1 (Q2Qc 3)) {| gW := None; gB := None |} ;;
        gW g)
       (Some (Vec (repeat (Q2Qc 4) 6))) = true.
Proof. vm_compute. reflexivity. Qed.

End NotebookExample.

(** ** The backward pass of the loss *)

Section Backward.

Lemma of_nat_1 : of_nat 1 = 1.
Proof. apply Qc_is_canon. reflexivity. Qed.

Lemma of_nat_2 : of_nat 2 = two.
Proof. apply Qc_is_canon. reflexivity. Qed.

Lemma Qcdiv_1 q : q / 1 = q.
Proof.
  unfold Qcdiv.
  replace (/ 1) with 1 by (apply Qc_is_canon; reflexivity).
  ring.
Qed.

Lemma target_value cfg x :
  length x = N cfg -> target cfg (Vec x) = Some (Scalar (truth cfg x)).
Proof.
  intros H. unfold target, target_graph, truth, intercept.
  cbn [eval bind mul broadcast ones dot sub].
  rewrite length_map, repeat_length, H, Nat.eqb_refl.
  cbn [bind]. rewrite dot_scaled_ones by exact H.
  reflexivity.
Qed.

(** The target is a 0-dimensional tensor whenever it is computed. *)
Lemma target_scalar cfg x t :
  target cfg (Vec x) = Some t -> exists y, t = Scalar y.
Proof.
  unfold target, target_graph.
  cbn [eval bind mul broadcast ones dot].
  destruct (_ =? _); cbn [bind sub broadcast]; [|discriminate].
  intros [= <-]. eauto.
Qed.

(** Accumulating into a cleared [.grad] stores the gradient as it is. *)
Lemma accumulate_cleared gs p l :
  cleared (length l) (grad gs p) ->
  accumulate gs p (Vec l) = Some (set_grad gs p (Vec l)).
Proof.
  unfold accumulate. intros [-> | ->]; [reflexivity|].
  unfold iadd, add, broadcast.
  rewrite repeat_length, Nat.eqb_refl. cbn [bind same_shape].
  rewrite map2_zero_l by (intros; ring || reflexivity).
  rewrite repeat_length, Nat.eqb_refl. reflexivity.
Qed.

Variables (wl : list Qc) (b0 : Qc) (x : list Qc).
Hypothesis Hlen : length x = length wl.

Let ps : params := {| pW := Vec wl; pB := Vec [b0] |}.

Lemma eval_y_hat :
  eval ps (y_hat_graph (Vec x)) = Some (Vec [prediction wl b0 x]).
Proof.
  unfold y_hat_graph, prediction.
  cbn [eval bind value pW pB dot ps]. rewrite <- Hlen, Nat.eqb_refl.
  reflexivity.
Qed.

Lemma backprop_y_hat g gw gb :
  cleared (length wl) gw -> cleared 1 gb ->
  backprop ps (y_hat_graph (Vec x)) (Vec [g]) {| gW := gw; gB := gb |}
  = Some {| gW := Some (Vec (map (Qcmult (g + 0)) x));
            gB := Some (Vec [g]) |}.
Proof.
  intros Hw Hb. unfold y_hat_graph.
  cbn [backprop eval bind value pW pB dot ps].
  rewrite <- Hlen, Nat.eqb_refl.
  cbn [bind unbroadcast length Nat.eqb total fold_right mul broadcast].
  rewrite accumulate_cleared by (rewrite length_map, Hlen; exact Hw).
  cbn [bind set_grad gB].
  rewrite accumulate_cleared by exact Hb.
  reflexivity.
Qed.

Lemma eval_loss r y :
  eval ps (loss_graph r (Vec x) (Scalar y))
  = Some (Scalar ((prediction wl b0 x - y) * (prediction wl b0 x - y))).
Proof.
  unfold loss_graph.
  destruct r; cbn [eval]; rewrite eval_y_hat;
    cbn [bind sub broadcast map pow tmap]; unfold Tensor.sum, mean;
    cbn [data numel length total fold_right];
    rewrite ?of_nat_1, ?Qcdiv_1; do 2 f_equal; simpl Qcpower; ring.
Qed.

(** Reverse-mode differentiation of the loss yields the closed forms,
    under either reduction. *)
Lemma backward_loss r y gw gb :
  cleared (length wl) gw -> cleared 1 gb ->
  backward ps (loss_graph r (Vec x) (Scalar y)) {| gW := gw; gB := gb |}
  = Some {| gW := Some (Vec (grad_w_closed (prediction wl b0 x - y) x));
            gB := Some (Vec [grad_b_closed (prediction wl b0 x - y)]) |}.
Proof.
  intros Hw Hb.
  unfold backward, loss_graph.
  destruct r; cbn [eval backprop]; rewrite eval_y_hat;
    cbn [bind sub broadcast map pow tmap]; unfold Tensor.sum, mean;
    cbn [bind data numel length Nat.eqb fill_like tmap map total fold_right
         mul broadcast scale map2 unbroadcast Nat.pred];
    rewrite (backprop_y_hat _ gw gb Hw Hb); cbn [bind backprop];
    unfold grad_w_closed, grad_b_closed;
    rewrite ?of_nat_1, ?Qcdiv_1, of_nat_2.
  - do 3 f_equal.
    + f_equal. apply map_ext. intros xi. simpl Qcpower. ring.
    + do 2 f_equal. simpl Qcpower. ring.
  - do 3 f_equal.
    + f_equal. apply map_ext. intros xi. simpl Qcpower. ring.
    + do 2 f_equal. simpl Qcpower. ring.
Qed.

End Backward.

(** ** One iteration *)

Section Step.

Variable cfg : config.

Let lr := learning_rate cfg.

Lemma grads_read_closed wl b0 x gw gb :
  length x = N cfg -> length wl = N cfg ->
  cleared (N cfg) gw -> cleared 1 gb ->
  grads_read cfg (Vec x)
    {| w := Vec wl; b := Vec [b0]; w_grad := gw; b_grad := gb |}
  = Some {| gW := Some (Vec (grad_w_closed
                               (prediction wl b0 x - truth cfg x) x));
            gB := Some (Vec [grad_b_closed
                               (prediction wl b0 x - truth cfg x)]) |}.
Proof.
  intros Hx Hw Hgw Hgb. unfold grads_read.
  rewrite target_value by exact Hx. cbn [bind].
  unfold params_of, grads_of. cbn [w b w_grad b_grad].
  apply backward_loss; congruence.
Qed.

Lemma isub_scaled c l gl :
  length gl = length l ->
  isub (Vec l) (scale c (Vec gl)) = Some (Vec (descend c l gl)).
Proof.
  intros H. unfold isub, sub, scale, tmap, broadcast, descend.
  rewrite length_map, H, Nat.eqb_refl. cbn [bind same_shape].
  rewrite map2_sub_scaled by congruence.
  rewrite map2_length, Nat.eqb_refl by congruence.
  reflexivity.
Qed.

Lemma grad_w_closed_length err x : length (grad_w_closed err x) = length x.
Proof. apply length_map. Qed.

(** The loop body in closed form. *)
Lemma step_closed wl b0 x gw gb :
  length x = N cfg -> length wl = N cfg ->
  cleared (N cfg) gw -> cleared 1 gb ->
  step cfg (Vec x)
    {| w := Vec wl; b := Vec [b0]; w_grad := gw; b_grad := gb |}
  = Some
      {| w := Vec (descend lr wl
                     (grad_w_closed (prediction wl b0 x - truth cfg x) x));
         b := Vec [b0 - lr * grad_b_closed
                               (prediction wl b0 x - truth cfg x)];
         w_grad := Some (Vec (repeat 0 (N cfg)));
         b_grad := Some (Vec [0]) |}.
Proof.
  intros Hx Hw Hgw Hgb. unfold step.
  rewrite grads_read_closed by assumption.
  cbn [bind gW gB w b].
  rewrite isub_scaled by (rewrite grad_w_closed_length; congruence).
  cbn [bind].
  rewrite isub_scaled by reflexivity.
  cbn [bind zeros_like tmap map descend map2].
  rewrite map_const_zero, grad_w_closed_length, Hx.
  reflexivity.
Qed.

Lemma descend_length c l gl :
  length gl = length l -> length (descend c l gl) = length l.
Proof. intros H. unfold descend. apply map2_length. congruence. Qed.

(** The loop body never fails on a state of the loop, and leaves one. *)
Lemma step_loop_state st x :
  loop_state (N cfg) st -> length x = N cfg ->
  exists st', step cfg (Vec x) st = Some st'
              /\ loop_state (N cfg) st'
              /\ zeroed (N cfg) (w_grad st') /\ zeroed 1 (b_grad st').
Proof.
  intros [[wl [Ew Hw]] [b0 Eb] Hgw Hgb] Hx.
  destruct st as [w0 b1 gw gb]; cbn [w b w_grad b_grad] in *; subst.
  rewrite step_closed by assumption.
  eexists; split; [reflexivity|].
  split; [|split; reflexivity].
  constructor; cbn [w b w_grad b_grad].
  - eexists; split; [reflexivity|].
    rewrite descend_length; [assumption|].
    rewrite grad_w_closed_length. congruence.
  - eauto.
  - right; reflexivity.
  - right; reflexivity.
Qed.

(** On a state of the loop, the accumulated gradient is the fresh one. *)
Lemma grads_read_fresh st x :
  loop_state (N cfg) st -> length x = N cfg ->
  grads_read cfg (Vec x) st = fresh_grads cfg (Vec x) st
  /\ exists gw gb, fresh_grads cfg (Vec x) st
                   = Some {| gW := Some (Vec gw); gB := Some (Vec [gb]) |}
                   /\ length gw = N cfg
                   /\ exists wl b0, w st = Vec wl /\ b st = Vec [b0]
                      /\ step cfg (Vec x) st
                         = Some {| w := Vec (descend lr wl gw);
                                   b := Vec [b0 - lr * gb];
                                   w_grad := Some (Vec (repeat 0 (N cfg)));
                                   b_grad := Some (Vec [0]) |}.
Proof.
  intros [[wl [Ew Hw]] [b0 Eb] Hgw Hgb] Hx.
  destruct st as [w0 b1 gw gb]; cbn [w b w_grad b_grad] in *; subst.
  assert (Hf : fresh_grads cfg (Vec x)
                 {| w := Vec wl; b := Vec [b0];
                    w_grad := gw; b_grad := gb |}
               = grads_read cfg (Vec x)
                   {| w := Vec wl; b := Vec [b0];
                      w_grad := None; b_grad := None |}) by reflexivity.
  rewrite Hf, !grads_read_closed by (assumption || (left; reflexivity)).
  split; [reflexivity|].
  do 2 eexists; split; [reflexivity|].
  split; [rewrite grad_w_closed_length; exact Hx|].
  do 2 eexists; split; [reflexivity|]; split; [reflexivity|].
  apply step_closed; assumption.
Qed.

End Step.

(** ** The whole loop *)

Section Loop.

Context {G : Type} {rng : Generator G}.
Variable cfg : config.

Lemma loop_trace_run n st g :
  loop_trace cfg n st g = run cfg (draws cfg n g) st.
Proof.
  revert st g; induction n as [|n IH]; intros st g; cbn [loop_trace draws].
  - reflexivity.
  - destruct (randn (N cfg) g) as [x g']. cbn [run].
    destruct (step cfg (Vec x) st) as [st'|]; cbn [bind]; [|reflexivity].
    rewrite IH. reflexivity.
Qed.

Lemma draws_length n g : length (draws cfg n g) = n.
Proof.
  revert g; induction n as [|n IH]; intros g; cbn [draws].
  - reflexivity.
  - destruct (randn (N cfg) g) as [x g']. cbn [length]. now rewrite IH.
Qed.

Lemma draws_sized n g :
  Forall (fun x => length x = N cfg) (draws cfg n g).
Proof.
  revert g; induction n as [|n IH]; intros g; cbn [draws].
  - constructor.
  - pose proof (randn_length (N cfg) g) as H.
    destruct (randn (N cfg) g) as [x g']. constructor; [exact H|apply IH].
Qed.

Lemma init_loop_state seed : loop_state (N cfg) (fst (init cfg seed)).
Proof.
  unfold init. pose proof (rand_length (N cfg) seed) as H.
  destruct (rand (N cfg) seed) as [w0 g]. cbn [fst] in *.
  constructor; cbn [w b w_grad b_grad].
  - eauto.
  - exists 1. reflexivity.
  - left; reflexivity.
  - left; reflexivity.
Qed.

Lemma train_trace_run seed :
  train_trace cfg seed
  = run cfg (train_draws cfg seed) (fst (init cfg seed)).
Proof.
  unfold train_trace, train_draws.
  destruct (init cfg seed) as [st g]. apply loop_trace_run.
Qed.

Lemma last_cons_default (s : state) tr d d' :
  last (s :: tr) d = last (s :: tr) d'.
Proof.
  revert s; induction tr as [|t tr IH]; intros s; [reflexivity|].
  change (last (t :: tr) d = last (t :: tr) d'). apply IH.
Qed.

(** The loop returns the last state of its trace. *)
Lemma loop_last n st g :
  option_map fst (loop cfg n st g)
  = option_map (fun tr => last tr st) (loop_trace cfg n st g).
Proof.
  revert st g; induction n as [|n IH]; intros st g;
    cbn [loop loop_trace].
  - reflexivity.
  - destruct (randn (N cfg) g) as [x g'].
    destruct (step cfg (Vec x) st) as [st'|]; cbn [bind]; [|reflexivity].
    rewrite IH.
    destruct (loop_trace cfg n st' g') as [tr|] eqn:E; cbn [bind option_map];
      [|reflexivity].
    f_equal. destruct tr as [|s tr].
    + destruct n; cbn [loop_trace] in E; [discriminate|].
      destruct (randn (N cfg) g'); destruct (step cfg _ st');
        cbn [bind] in E; [|discriminate].
      destruct (loop_trace cfg n _ _); discriminate.
    + change (last (st :: s :: tr) st) with (last (s :: tr) st).
      apply last_cons_default.
Qed.

End Loop.

(** ** Runs over given samples *)

Section Run.

Variable cfg : config.

Let sized (x : list Qc) : Prop := length x = N cfg.

Lemma run_head xs st tr : run cfg xs st = Some tr -> nth_error tr 0 = Some st.
Proof.
  destruct xs as [|x xs]; cbn [run].
  - intros [= <-]. reflexivity.
  - destruct (step cfg (Vec x) st); cbn [bind]; [|discriminate].
    destruct (run cfg xs s); cbn [bind]; [|discriminate].
    intros [= <-]. reflexivity.
Qed.

(** A run from a state of the loop completes; its trace has one state
    per iteration and a final one, consecutive states are related by the
    loop body, every state is a state of the loop, and after the first
    one the accumulators are zero. *)
Lemma run_spec xs : forall st,
  loop_state (N cfg) st -> Forall sized xs ->
  exists tr,
    run cfg xs st = Some tr
    /\ length tr = S (length xs)
    /\ (forall i s, nth_error tr i = Some s -> loop_state (N cfg) s)
    /\ (forall i s, nth_error tr (S i) = Some s ->
          zeroed (N cfg) (w_grad s) /\ zeroed 1 (b_grad s))
    /\ (forall i s x, nth_error tr i = Some s -> nth_error xs i = Some x ->
          exists s', step cfg (Vec x) s = Some s'
                     /\ nth_error tr (S i) = Some s').
Proof.
  induction xs as [|x xs IH]; intros st Hst Hxs; cbn [run].
  - exists [st]. split; [reflexivity|]. split; [reflexivity|].
    split; [|split].
    + intros [|[|i]] s; cbn; intros [=]; subst; assumption.
    + intros [|i] s; cbn; intros [=].
    + intros [|i] s y _; cbn; intros [=].
  - inversion Hxs as [|? ? Hx Hxs']; subst.
    destruct (step_loop_state cfg st x Hst Hx) as (st' & E & Hst' & Hz).
    destruct (IH st' Hst' Hxs') as (tr & Er & Hl & Hall & Hzero & Hstep).
    rewrite E; cbn [bind]; rewrite Er; cbn [bind].
    exists (st :: tr). split; [reflexivity|].
    split; [cbn [length]; congruence|].
    pose proof (run_head _ _ _ Er) as Hhd.
    split; [|split].
    + intros [|i] s; cbn [nth_error].
      * intros [= <-]; assumption.
      * apply Hall.
    + intros [|i] s H.
      * change (nth_error tr 0 = Some s) in H.
        rewrite Hhd in H. injection H as <-. exact Hz.
      * exact (Hzero i s H).
    + intros [|i] s y Hs Hy.
      * injection Hs as <-. injection Hy as <-.
        exists st'. split; assumption.
      * exact (Hstep i s y Hs Hy).
Qed.

(** A run never looks ahead: two runs from the same state that agree on
    their first [i] samples agree on their first [i + 1] states. *)
Lemma run_prefix i : forall xs xs' st tr tr',
  firstn i xs = firstn i xs' ->
  run cfg xs st = Some tr -> run cfg xs' st = Some tr' ->
  firstn (S i) tr = firstn (S i) tr'.
Proof.
  induction i as [|i IH]; intros xs xs' st tr tr' Hp E E'.
  - apply run_head in E, E'.
    destruct tr, tr'; cbn in *; congruence.
  - destruct xs as [|x xs], xs' as [|x' xs']; cbn [firstn] in Hp;
      try discriminate.
    + cbn [run] in *. congruence.
    + injection Hp as <- Hp. cbn [run] in E, E'.
      destruct (step cfg (Vec x) st) as [st'|]; cbn [bind] in *;
        [|discriminate].
      destruct (run cfg xs st') as [t|] eqn:R; cbn [bind] in E;
        [|discriminate].
      destruct (run cfg xs' st') as [t'|] eqn:R'; cbn [bind] in E';
        [|discriminate].
      injection E as <-. injection E' as <-.
      change (st :: firstn (S i) t = st :: firstn (S i) t').
      f_equal. eapply IH; eassumption.
Qed.

End Run.

(** ** Properties of the training loop *)

Section InitialState.

Context {G : Type} {rng : Generator G}.

Lemma init_state cfg (seed : G) :
  fst (init cfg seed)
  = {| w := Vec (fst (rand (N cfg) seed)); b := ones 1;
       w_grad := None; b_grad := None |}.
Proof. unfold init. destruct (rand (N cfg) seed). reflexivity. Qed.

(** The trace of [train] exists and satisfies [run_spec]. *)
Lemma train_trace_spec cfg (seed : G) :
  exists tr,
    train_trace cfg seed = Some tr
    /\ length tr = S (Z.to_nat (epochs cfg))
    /\ nth_error tr 0 = Some (fst (init cfg seed))
    /\ (forall i s, nth_error tr i = Some s -> loop_state (N cfg) s)
    /\ (forall i s, nth_error tr (S i) = Some s ->
          zeroed (N cfg) (w_grad s) /\ zeroed 1 (b_grad s))
    /\ (forall i s x, nth_error tr i = Some s ->
          nth_error (train_draws cfg seed) i = Some x ->
          length x = N cfg
          /\ exists s', step cfg (Vec x) s = Some s'
                        /\ nth_error tr (S i) = Some s').
Proof.
  rewrite train_trace_run.
  destruct (run_spec cfg (train_draws cfg seed) (fst (init cfg seed)))
    as (tr & E & Hl & Hall & Hz & Hs).
  - apply init_loop_state.
  - apply draws_sized.
  - exists tr. split; [exact E|].
    split; [rewrite Hl; unfold train_draws; now rewrite draws_length|].
    split; [eapply run_head; exact E|].
    split; [exact Hall|]. split; [exact Hz|].
    intros i s x Hi Hx. split; [|eapply Hs; eassumption].
    pose proof (draws_sized cfg (Z.to_nat (epochs cfg))
                  (snd (init cfg seed))) as F.
    rewrite Forall_forall in F. apply F.
    eapply nth_error_In. exact Hx.
Qed.

End InitialState.

(** C1: in the sum-reduction loop body, with [y_hat = dot(w, x) + b] and
    [y] the target of the iteration, the loss is [(y_hat - y)^2] and the
    gradients that [loss.backward()] leaves in [w.grad] and [b.grad], which
    the update then applies, are [2 (y_hat - y) x] (componentwise) and
    [2 (y_hat - y)], for all parameters [w], [b] and every input [x] of the
    configured size. *)
Theorem sum_reduction_gradients cfg wl b0 x gw gb :
  reduce cfg = RSum ->
  length x = N cfg -> length wl = N cfg ->
  cleared (N cfg) gw -> cleared 1 gb ->
  let st := {| w := Vec wl; b := Vec [b0]; w_grad := gw; b_grad := gb |} in
  let y_hat := prediction wl b0 x in
  exists y,
    target cfg (Vec x) = Some (Scalar y)
    /\ loss cfg (Vec x) st = Some (Scalar ((y_hat - y) * (y_hat - y)))
    /\ grads_read cfg (Vec x) st
       = Some {| gW := Some (Vec (map (fun xi => two * (y_hat - y) * xi) x));
                 gB := Some (Vec [two * (y_hat - y)]) |}
    /\ exists st',
         step cfg (Vec x) st = Some st'
         /\ w st' = Vec (map2 (fun wi xi =>
                                 wi - learning_rate cfg
                                      * (two * (y_hat - y) * xi)) wl x)
         /\ b st' = Vec [b0 - learning_rate cfg * (two * (y_hat - y))].
Proof.
  intros _ Hx Hw Hgw Hgb st y_hat.
  exists (truth cfg x).
  split; [apply target_value; exact Hx|].
  split.
  { unfold loss. rewrite target_value by exact Hx. cbn [bind].
    apply eval_loss. congruence. }
  split; [apply grads_read_closed; assumption|].
  eexists. split; [apply step_closed; assumption|].
  cbn [w b]. split; [|reflexivity].
  f_equal. unfold descend, grad_w_closed.
  clear - Hx Hw. subst y_hat. generalize (prediction wl b0 x - truth cfg x).
  intros err. assert (H : length x = length wl) by congruence. clear Hx Hw.
  revert x H; induction wl as [|a l IH]; intros [|xi x] H; cbn in *;
    try discriminate; auto.
  f_equal. apply IH. congruence.
Qed.

Lemma sum_reduction_gradients_witness :
  let cfg := small RSum (Q2Qc 0.01) 2 in
  let wl := [Q2Qc 0.5; Q2Qc 0.25] in
  let x := [1; Q2Qc 2] in
  let st := {| w := Vec wl; b := Vec [1]; w_grad := None; b_grad := None |} in
  exists y,
    target cfg (Vec x) = Some (Scalar y)
    /\ grads_read cfg (Vec x) st
       = Some {| gW := Some (Vec (map (fun xi =>
                                         two * (prediction wl 1 x - y) * xi)
                                      x));
                 gB := Some (Vec [two * (prediction wl 1 x - y)]) |}.
Proof.
  intros cfg wl x st.
  destruct (sum_reduction_gradients cfg wl 1 x None None)
    as (y & Ht & _ & E & _).
  - reflexivity.
  - reflexivity.
  - reflexivity.
  - left; reflexivity.
  - left; reflexivity.
  - exists y. split; [exact Ht | exact E].
Defined.

(** C2: a run of [train] completes with one update per iteration; the
    update of iteration [i] replaces [w] by [w - learning_rate * dw] and [b]
    by [b - learning_rate * db], where [dw], [db] are the gradients of the
    loss of iteration [i] (at the parameters and the sample of that
    iteration); and no update reads a later sample: a second run from the
    same initial [w] whose first [i] samples are the same has the same
    first [i + 1] states, whatever it draws afterwards. *)
Theorem update_rule {G : Type} {rng : Generator G} cfg (seed : G) :
  exists tr,
    train_trace cfg seed = Some tr
    /\ length tr = S (Z.to_nat (epochs cfg))
    /\ (forall i st x,
          nth_error tr i = Some st ->
          nth_error (train_draws cfg seed) i = Some x ->
          exists wl b0 dw db st',
            w st = Vec wl /\ b st = Vec [b0]
            /\ fresh_grads cfg (Vec x) st
               = Some {| gW := Some (Vec dw); gB := Some (Vec [db]) |}
            /\ nth_error tr (S i) = Some st'
            /\ w st' = Vec (map2 (fun wi gi => wi - learning_rate cfg * gi)
                                 wl dw)
            /\ b st' = Vec [b0 - learning_rate cfg * db])
    /\ (forall (G' : Type) (rng' : Generator G') (seed' : G') tr' i,
          train_trace cfg seed' = Some tr' ->
          fst (rand (N cfg) seed') = fst (rand (N cfg) seed) ->
          firstn i (train_draws cfg seed') = firstn i (train_draws cfg seed) ->
          firstn (S i) tr' = firstn (S i) tr).
Proof.
  destruct (train_trace_spec cfg seed) as (tr & E & Hl & Hhd & Hall & _ & Hs).
  exists tr. split; [exact E|]. split; [exact Hl|]. split.
  - intros i st x Hi Hx.
    destruct (Hs i st x Hi Hx) as (Hlen & st' & Est & Hn).
    destruct (grads_read_fresh cfg st x (Hall i st Hi) Hlen)
      as (_ & dw & db & Ef & _ & wl & b0 & Ew & Eb & Estep).
    exists wl, b0, dw, db, st'.
    rewrite Estep in Est. injection Est as <-.
    repeat split; assumption || reflexivity.
  - intros G' rng' seed' tr' i E' Hw Hp.
    rewrite train_trace_run in E. rewrite train_trace_run in E'.
    assert (Hi : fst (init cfg seed') = fst (init cfg seed))
      by (rewrite !init_state, Hw; reflexivity).
    rewrite Hi in E'.
    eapply run_prefix; eassumption.
Qed.

(** The claim that the accumulators are zero at the start of every
    iteration fails at the first one: [w.grad] and [b.grad] are [None]
    until the first [loss.backward()]. *)
Lemma first_iteration_accumulators_unset :
  exists tr,
    train_trace (small RSum (Q2Qc 0.01) 2) samples = Some tr
    /\ ~ starts_zeroed (small RSum (Q2Qc 0.01) 2) tr.
Proof.
  destruct (train_trace_spec (small RSum (Q2Qc 0.01) 2) samples)
    as (tr & E & _ & Hhd & _).
  exists tr. split; [exact E|].
  intros H. destruct (H 0%nat _ ltac:(cbn; lia) Hhd) as [Hw _].
  rewrite init_state in Hw. discriminate Hw.
Qed.

(** C3 (amended): the accumulators of [w] and [b] are unset ([None]) at
    the start of the first iteration and zero at the start of every later
    one and after the last; in every iteration what the update reads from
    them after [loss.backward()] is exactly the gradient of that
    iteration's loss, with nothing left over from an earlier loss. *)
Theorem accumulators_fresh {G : Type} {rng : Generator G} cfg (seed : G) :
  exists tr,
    train_trace cfg seed = Some tr
    /\ length tr = S (Z.to_nat (epochs cfg))
    /\ (exists st0, nth_error tr 0 = Some st0
                    /\ w_grad st0 = None /\ b_grad st0 = None)
    /\ (forall i st, nth_error tr (S i) = Some st ->
          w_grad st = Some (Vec (repeat 0 (N cfg)))
          /\ b_grad st = Some (Vec [0]))
    /\ (forall i st x,
          nth_error tr i = Some st ->
          nth_error (train_draws cfg seed) i = Some x ->
          exists gs, fresh_grads cfg (Vec x) st = Some gs
                     /\ grads_read cfg (Vec x) st = Some gs).
Proof.
  destruct (train_trace_spec cfg seed) as (tr & E & Hl & Hhd & Hall & Hz & Hs).
  exists tr. split; [exact E|]. split; [exact Hl|]. split; [|split].
  - exists (fst (init cfg seed)). split; [exact Hhd|].
    rewrite init_state. split; reflexivity.
  - exact Hz.
  - intros i st x Hi Hx.
    destruct (Hs i st x Hi Hx) as (Hlen & _).
    destruct (grads_read_fresh cfg st x (Hall i st Hi) Hlen)
      as (Eq & dw & db & Ef & _).
    eexists. split; [exact Ef|]. rewrite Eq. exact Ef.
Qed.

Section Totality.

Context {G : Type} {rng : Generator G}.

Lemma to_nat_nonpos z : (z <= 0)%Z -> Z.to_nat z = 0%nat.
Proof. destruct z; cbn; intros H; [reflexivity|lia|reflexivity]. Qed.

(** [train] returns, and what it returns is the last state of its
    trace. *)
Lemma train_total cfg (seed : G) :
  exists st g tr,
    train cfg seed = Some (st, g)
    /\ train_trace cfg seed = Some tr
    /\ length tr = S (Z.to_nat (epochs cfg))
    /\ nth_error tr (Z.to_nat (epochs cfg)) = Some st.
Proof.
  destruct (train_trace_spec cfg seed) as (tr & E & Hl & _).
  unfold train, train_trace in *.
  destruct (init cfg seed) as [st0 g0].
  pose proof (loop_last cfg (Z.to_nat (epochs cfg)) st0 g0) as L.
  rewrite E in L. cbn [option_map] in L.
  destruct (loop cfg (Z.to_nat (epochs cfg)) st0 g0) as [[st g]|];
    [|discriminate].
  injection L as L. cbn [fst] in L.
  exists st, g, tr. repeat split; try assumption.
  rewrite L. clear - Hl.
  destruct tr as [|s tr]; [discriminate|].
  rewrite (last_cons_default s tr st0 s).
  injection Hl as <-.
  rewrite nth_error_nth' with (d := s) by (cbn; lia).
  f_equal. revert s. induction tr as [|t tr IH]; intros s; [reflexivity|].
  change (nth (length tr) (t :: tr) s = last (t :: tr) s).
  rewrite (last_cons_default t tr s t), <- IH.
  apply nth_indep. cbn; lia.
Qed.

End Totality.

(** A configuration with [epochs = 0] is not rejected: the call returns
    the initial state. *)
Lemma zero_epochs_not_rejected :
  invalid (small RSum (Q2Qc 0.01) 0)
  /\ train (small RSum (Q2Qc 0.01) 0) samples <> None.
Proof.
  split.
  - left. cbn. lia.
  - cbn. discriminate.
Qed.

(** C4 (amended): [train] validates nothing and never fails, whatever
    the number of steps, the size and the learning rate: it returns after
    exactly [max(steps, 0)] iterations; with [steps <= 0] no iteration runs
    and [w], [b] are returned as initialized. *)
Theorem train_never_rejects {G : Type} {rng : Generator G} cfg (seed : G) :
  exists st g tr,
    train cfg seed = Some (st, g)
    /\ train_trace cfg seed = Some tr
    /\ length tr = S (Z.to_nat (epochs cfg))
    /\ nth_error tr (Z.to_nat (epochs cfg)) = Some st
    /\ ((epochs cfg <= 0)%Z ->
        (st, g) = init cfg seed /\ tr = [fst (init cfg seed)]).
Proof.
  destruct (train_total cfg seed) as (st & g & tr & E & Et & Hl & Hn).
  exists st, g, tr. do 4 (split; [assumption|]).
  intros H. unfold train in E. unfold train_trace in Et.
  rewrite (to_nat_nonpos _ H) in E, Et.
  destruct (init cfg seed). cbn [loop loop_trace fst] in *.
  split; congruence.
Qed.

(** C6: with [epochs = 0] the loop body never runs: [train] returns the
    state of the configuration cell, with [w] and [b] as initialized. *)
Theorem zero_steps_unchanged {G : Type} {rng : Generator G} cfg (seed : G) :
  epochs cfg = 0%Z ->
  train cfg seed = Some (init cfg seed)
  /\ train_trace cfg seed = Some [fst (init cfg seed)]
  /\ w (fst (init cfg seed)) = Vec (fst (rand (N cfg) seed))
  /\ b (fst (init cfg seed)) = ones 1.
Proof.
  intros H. pose proof (init_state cfg seed) as Hi.
  unfold train, train_trace. rewrite H.
  destruct (init cfg seed) as [st g]. cbn [fst] in *.
  cbn [Z.to_nat loop loop_trace]. subst st. cbn [w b]. auto.
Qed.

Lemma zero_steps_unchanged_witness :
  train (small RSum (Q2Qc 0.01) 0) samples
  = Some (init (small RSum (Q2Qc 0.01) 0) samples).
Proof.
  apply (zero_steps_unchanged (small RSum (Q2Qc 0.01) 0) samples).
  reflexivity.
Defined.

(** ** A zero learning rate *)

Section Frozen.

Variable cfg : config.
Hypothesis Hlr : learning_rate cfg = 0.

Lemma descend_zero l gl : length gl = length l -> descend 0 l gl = l.
Proof.
  unfold descend. revert gl; induction l as [|a l IH]; intros [|g gl] H;
    cbn in *; try discriminate; auto.
  rewrite IH by congruence. f_equal. ring.
Qed.

Lemma step_frozen st x st' :
  loop_state (N cfg) st -> length x = N cfg ->
  step cfg (Vec x) st = Some st' -> w st' = w st /\ b st' = b st.
Proof.
  intros Hst Hx E.
  destruct (grads_read_fresh cfg st x Hst Hx)
    as (_ & dw & db & Ef & Hdw & wl & b0 & Ew & Eb & Es).
  rewrite Es in E. injection E as <-. cbn [w b].
  rewrite Ew, Eb, Hlr. split.
  - f_equal. apply descend_zero.
    destruct Hst as [[wl' [Ew' Hw]] _ _ _]. congruence.
  - do 2 f_equal. ring.
Qed.

Lemma run_frozen xs : forall st tr,
  loop_state (N cfg) st -> Forall (fun x => length x = N cfg) xs ->
  run cfg xs st = Some tr ->
  Forall (fun s => w s = w st /\ b s = b st) tr.
Proof.
  induction xs as [|x xs IH]; intros st tr Hst Hxs; cbn [run].
  - intros [= <-]. constructor; auto.
  - inversion Hxs as [|? ? Hx Hxs']; subst.
    destruct (step_loop_state cfg st x Hst Hx) as (st' & E & Hst' & _).
    rewrite E; cbn [bind].
    destruct (run cfg xs st') as [t|] eqn:R; cbn [bind]; [|discriminate].
    intros [= <-]. constructor; [auto|].
    destruct (step_frozen st x st' Hst Hx E) as [Hw Hb].
    rewrite <- Hw, <- Hb. eapply IH; eassumption.
Qed.

End Frozen.

(** C10: with [learning_rate = 0] the run completes for every number of
    steps, and [w] and [b] hold their initialized values at the start of
    every iteration and at the end. *)
Theorem zero_learning_rate_freezes {G : Type} {rng : Generator G}
        cfg (seed : G) :
  learning_rate cfg = 0 ->
  exists st g tr,
    train cfg seed = Some (st, g)
    /\ train_trace cfg seed = Some tr
    /\ length tr = S (Z.to_nat (epochs cfg))
    /\ Forall (fun s => w s = Vec (fst (rand (N cfg) seed)) /\ b s = ones 1) tr
    /\ w st = Vec (fst (rand (N cfg) seed)) /\ b st = ones 1.
Proof.
  intros Hlr.
  destruct (train_total cfg seed) as (st & g & tr & E & Et & Hl & Hn).
  exists st, g, tr. do 3 (split; [assumption|]).
  assert (F : Forall (fun s => w s = Vec (fst (rand (N cfg) seed))
                               /\ b s = ones 1) tr).
  { rewrite train_trace_run in Et.
    pose proof (run_frozen cfg Hlr _ _ _ (init_loop_state cfg seed)
                  (draws_sized cfg _ _) Et) as F.
    rewrite init_state in F. exact F. }
  split; [exact F|].
  rewrite Forall_forall in F. apply F.
  eapply nth_error_In. exact Hn.
Qed.

Lemma zero_learning_rate_freezes_witness :
  exists st g,
    train (small RSum 0 2) samples = Some (st, g)
    /\ w st = Vec (fst (rand 2 samples)) /\ b st = ones 1.
Proof.
  destruct (zero_learning_rate_freezes (small RSum 0 2) samples)
    as (st & g & tr & E & _ & _ & _ & Hw & Hb).
  - reflexivity.
  - exists st, g. repeat split; assumption.
Defined.

(** ** Sum and mean over one element *)

Section OneElement.

Lemma sum_mean_one ps e gs :
  (forall a, eval ps e = Some a -> numel a = 1%nat) ->
  eval ps (Sum e) = eval ps (Mean e)
  /\ backward ps (Sum e) gs = backward ps (Mean e) gs.
Proof.
  intros H. unfold backward. cbn [eval backprop].
  destruct (eval ps e) as [a|] eqn:E; cbn [bind]; [|split; reflexivity].
  unfold Tensor.sum, mean. rewrite (H a eq_refl), of_nat_1, !Qcdiv_1.
  cbn [numel data length Nat.eqb fill_like tmap total fold_right].
  split; reflexivity.
Qed.

(** The squared error has one element whenever it can be computed. *)
Lemma squared_error_one_element ps x y b0 a :
  pB ps = Vec [b0] ->
  eval ps (Pow (Sub (y_hat_graph (Vec x)) (Const (Scalar y))) 2) = Some a ->
  numel a = 1%nat.
Proof.
  intros Hb. unfold y_hat_graph. cbn [eval bind value].
  rewrite Hb.
  destruct (dot (pW ps) (Vec x)) as [d|] eqn:D; cbn [bind]; [|discriminate].
  unfold dot in D. destruct (pW ps) as [|l]; [discriminate|].
  destruct (_ =? _); [|discriminate]. injection D as <-.
  cbn. intros [= <-]. reflexivity.
Qed.

Lemma set_reduce_step cfg st x b0 :
  b st = Vec [b0] ->
  loss (set_reduce RSum cfg) (Vec x) st
  = loss (set_reduce RMean cfg) (Vec x) st
  /\ step (set_reduce RSum cfg) (Vec x) st
     = step (set_reduce RMean cfg) (Vec x) st.
Proof.
  intros Hb.
  assert (K : loss (set_reduce RSum cfg) (Vec x) st
              = loss (set_reduce RMean cfg) (Vec x) st
              /\ grads_read (set_reduce RSum cfg) (Vec x) st
                 = grads_read (set_reduce RMean cfg) (Vec x) st).
  { unfold loss, grads_read.
    change (target (set_reduce RSum cfg)) with (target cfg).
    change (target (set_reduce RMean cfg)) with (target cfg).
    destruct (target cfg (Vec x)) as [t|] eqn:T; cbn [bind];
      [|split; reflexivity].
    destruct (target_scalar _ _ _ T) as [y ->].
    cbn [reduce set_reduce loss_graph].
    apply sum_mean_one. intros a.
    apply squared_error_one_element with (b0 := b0). exact Hb. }
  destruct K as [Kl Kg]. split; [exact Kl|].
  unfold step. rewrite Kg. reflexivity.
Qed.

Lemma isub_one_element b0 t r : isub (Vec [b0]) t = Some r -> exists r0, r = Vec [r0].
Proof.
  unfold isub. destruct (sub (Vec [b0]) t) as [s|]; cbn [bind];
    [|discriminate].
  destruct s as [v|[|r0 [|r1 l]]]; cbn; try discriminate.
  intros [= <-]. eauto.
Qed.

Lemma step_keeps_bias_shape cfg st x st' b0 :
  b st = Vec [b0] -> step cfg (Vec x) st = Some st' ->
  exists b1, b st' = Vec [b1].
Proof.
  intros Hb. unfold step.
  destruct (grads_read cfg (Vec x) st) as [gs|]; cbn [bind]; [|discriminate].
  destruct (gW gs); cbn [bind]; [|discriminate].
  destruct (gB gs); cbn [bind]; [|discriminate].
  destruct (isub (w st) _); cbn [bind]; [|discriminate].
  rewrite Hb.
  destruct (isub (Vec [b0]) _) as [r|] eqn:R; cbn [bind]; [|discriminate].
  intros [= <-]. cbn [b]. eapply isub_one_element. exact R.
Qed.

Context {G : Type} {rng : Generator G}.

Lemma set_reduce_loop cfg n : forall st (g : G) b0,
  b st = Vec [b0] ->
  loop (set_reduce RSum cfg) n st g = loop (set_reduce RMean cfg) n st g
  /\ loop_trace (set_reduce RSum cfg) n st g
     = loop_trace (set_reduce RMean cfg) n st g.
Proof.
  induction n as [|n IH]; intros st g b0 Hb; cbn [loop loop_trace].
  - split; reflexivity.
  - change (N (set_reduce RSum cfg)) with (N cfg).
    change (N (set_reduce RMean cfg)) with (N cfg).
    destruct (randn (N cfg) g) as [x g'].
    destruct (set_reduce_step cfg st x b0 Hb) as [_ <-].
    destruct (step (set_reduce RSum cfg) (Vec x) st) as [st'|] eqn:E;
      cbn [bind]; [|split; reflexivity].
    destruct (step_keeps_bias_shape _ _ _ _ _ Hb E) as [b1 Hb1].
    destruct (IH st' g' b1 Hb1) as [<- <-]. split; reflexivity.
Qed.

End OneElement.

(** C5: [y_hat - y] has exactly one element, so [torch.sum] and
    [torch.mean] of its square are the same loss, for all [w], [b], [x]
    and whatever the accumulators hold; the loop body of the sum variant
    and that of the mean variant, run with the same constants on the same
    state and sample, produce the same state, and so do whole runs. *)
Theorem sum_mean_coincide cfg :
  (forall wl b0 gw gb x,
     let st := {| w := Vec wl; b := Vec [b0]; w_grad := gw; b_grad := gb |} in
     loss (set_reduce RSum cfg) (Vec x) st
     = loss (set_reduce RMean cfg) (Vec x) st
     /\ step (set_reduce RSum cfg) (Vec x) st
        = step (set_reduce RMean cfg) (Vec x) st)
  /\ (forall (G : Type) (rng : Generator G) (seed : G),
        train_trace (set_reduce RSum cfg) seed
        = train_trace (set_reduce RMean cfg) seed
        /\ train (set_reduce RSum cfg) seed
           = train (set_reduce RMean cfg) seed).
Proof.
  split.
  - intros wl b0 gw gb x st. apply set_reduce_step with (b0 := b0).
    reflexivity.
  - intros G rng seed. unfold train, train_trace, init.
    change (N (set_reduce RSum cfg)) with (N cfg).
    change (N (set_reduce RMean cfg)) with (N cfg).
    change (epochs (set_reduce RSum cfg)) with (epochs cfg).
    change (epochs (set_reduce RMean cfg)) with (epochs cfg).
    destruct (rand (N cfg) seed) as [w0 g].
    destruct (set_reduce_loop cfg (Z.to_nat (epochs cfg))
                {| w := Vec w0; b := ones 1;
                   w_grad := None; b_grad := None |} g 1 eq_refl)
      as [-> ->].
    split; reflexivity.
Qed.

Section TargetExpression.

(** What the loop evaluates is [Exact.target]. *)
Lemma target_exact cfg x :
  length x = N cfg ->
  target cfg (Vec x)
  = Some (Scalar (Exact.target (slope cfg) (offset cfg) (N cfg) x)).
Proof.
  intros H. unfold target, target_graph.
  cbn [eval bind mul broadcast ones dot sub].
  rewrite length_map, repeat_length, H, Nat.eqb_refl.
  cbn [bind broadcast]. reflexivity.
Qed.

End TargetExpression.

(** In binary32 the expression of the loop and the affine function of the
    sum differ: for [a = 3], [k = 2] and [x = [1, 2^-24]] the loop's
    [dot(3*ones(2), x) - 2] is [1 + 2^-22], while [3 * sum(x) + (-2)]
    is 1. *)
Lemma target_not_affine_in_float32 :
  Float32.target (Float32.lit 3 0) (Float32.lit 2 0) 2
    [Float32.one; Float32.lit 1 (-24)]
  = Float32.lit 4194305 (-22)
  /\ Float32.affine (Float32.lit 3 0) (Float32.opp (Float32.lit 2 0))
       [Float32.one; Float32.lit 1 (-24)]
     = Float32.one
  /\ Float32.target (Float32.lit 3 0) (Float32.lit 2 0) 2
       [Float32.one; Float32.lit 1 (-24)]
     <> Float32.affine (Float32.lit 3 0) (Float32.opp (Float32.lit 2 0))
          [Float32.one; Float32.lit 1 (-24)].
Proof.
  split; [vm_compute; reflexivity|].
  split; [vm_compute; reflexivity|].
  vm_compute. discriminate.
Qed.

(** C8 (amended): in every iteration the target is the value of
    [torch.dot(a*torch.ones([N]), x) - k], with [a] and [k] the same in
    all iterations of a run ([a = 3], [k = 2] in the first version of the
    cells, [a = 2], [k = 5] in the second); in exact arithmetic this
    expression equals [a * sum(x) + c] with [c = -k], for every [x] of
    size [N]. *)
Theorem target_affine cfg :
  (forall x, length x = N cfg ->
     target cfg (Vec x)
     = Some (Scalar (Exact.target (slope cfg) (offset cfg) (N cfg) x))
     /\ Exact.target (slope cfg) (offset cfg) (N cfg) x
        = Exact.affine (slope cfg) (intercept cfg) x)
  /\ (forall (G : Type) (rng : Generator G) (seed : G) i x,
        nth_error (train_draws cfg seed) i = Some x ->
        target cfg (Vec x)
        = Some (Scalar (slope cfg * total x + intercept cfg)))
  /\ (forall x, length x = 10%nat ->
        target variant1 (Vec x)
        = Some (Scalar (Q2Qc 3 * total x + Q2Qc (-2))))
  /\ (forall x, length x = 10%nat ->
        target variant2 (Vec x)
        = Some (Scalar (Q2Qc 2 * total x + Q2Qc (-5)))).
Proof.
  assert (A : forall c x, length x = N c ->
                Exact.target (slope c) (offset c) (N c) x
                = Exact.affine (slope c) (intercept c) x).
  { intros c x Hx.
    change (total (map2 Qcmult (map (Qcmult (slope c)) (repeat 1 (N c))) x)
            - offset c
            = slope c * total x + intercept c).
    rewrite dot_scaled_ones by exact Hx. reflexivity. }
  split; [|split; [|split]].
  - intros x Hx. split; [apply target_exact; exact Hx | apply A; exact Hx].
  - intros G rng seed i x Hx. apply target_value.
    pose proof (draws_sized cfg (Z.to_nat (epochs cfg))
                  (snd (init cfg seed))) as F.
    rewrite Forall_forall in F. apply F.
    eapply nth_error_In. exact Hx.
  - intros x Hx. rewrite (target_value variant1 x Hx).
    unfold truth, intercept. cbn [slope offset variant1].
    replace (- Q2Qc 2) with (Q2Qc (-2)) by (apply Qc_is_canon; reflexivity).
    reflexivity.
  - intros x Hx. rewrite (target_value variant2 x Hx).
    unfold truth, intercept. cbn [slope offset variant2].
    replace (- Q2Qc 5) with (Q2Qc (-5)) by (apply Qc_is_canon; reflexivity).
    reflexivity.
Qed.

(** ** A run of two iterations, computed

    [N = 2], [w = [0.5, 0.25]], [b = [1]], then [x = [1, 2]] and
    [x = [-1, 0]] with targets 7 and -5: the parameters become
    [[0.6, 0.45]], [[1.1]] and then [[0.71, 0.45]], [[0.99]]. *)

Example two_iterations :
  option_map
    (map (fun st => (tensor_eqb (w st) (Vec [Q2Qc 0.5; Q2Qc 0.25])
                     && tensor_eqb (b st) (Vec [1]),
                     tensor_eqb (w st) (Vec [Q2Qc 0.6; Q2Qc 0.45])
                     && tensor_eqb (b st) (Vec [Q2Qc 1.1]),
                     tensor_eqb (w st) (Vec [Q2Qc 0.71; Q2Qc 0.45])
                     && tensor_eqb (b st) (Vec [Q2Qc 0.99]))))
    (train_trace (small RSum (Q2Qc 0.01) 2) samples)
  = Some [(true, false, false); (false, true, false); (false, false, true)].
Proof. vm_compute. reflexivity. Qed.

(** ** Convergence depends on the samples

    The loop learns [w] only from the inputs it draws: on zero inputs the
    gradient of [w] vanishes and [w] stays where it is. *)

Section ZeroSamples.

Variable cfg : config.

Lemma descend_zero_inputs c err l :
  descend c l (grad_w_closed err (repeat 0 (length l))) = l.
Proof.
  unfold descend, grad_w_closed.
  induction l as [|a l IH]; cbn [length repeat map map2]; [reflexivity|].
  rewrite IH. f_equal. ring.
Qed.

Lemma step_zero_input st st' :
  loop_state (N cfg) st ->
  step cfg (Vec (repeat 0 (N cfg))) st = Some st' -> w st' = w st.
Proof.
  intros [[wl [Ew Hw]] [b0 Eb] Hgw Hgb].
  destruct st as [w0 b1 gw gb]; cbn [w b w_grad b_grad] in *; subst w0 b1.
  rewrite step_closed by (assumption || apply repeat_length).
  intros [= <-]. cbn [w]. f_equal.
  generalize (prediction wl b0 (repeat 0 (N cfg))
              - truth cfg (repeat 0 (N cfg))).
  rewrite <- Hw. intros err. apply descend_zero_inputs.
Qed.

Lemma run_zero_inputs xs : forall st tr,
  loop_state (N cfg) st -> Forall (fun x => x = repeat 0 (N cfg)) xs ->
  run cfg xs st = Some tr -> Forall (fun s => w s = w st) tr.
Proof.
  induction xs as [|x xs IH]; intros st tr Hst Hxs; cbn [run].
  - intros [= <-]. constructor; auto.
  - inversion Hxs as [|? ? Hx Hxs']; subst.
    destruct (step_loop_state cfg st (repeat 0 (N cfg)) Hst
                (repeat_length _ _)) as (st' & E & Hst' & _).
    rewrite E; cbn [bind].
    destruct (run cfg xs st') as [t|] eqn:R; cbn [bind]; [|discriminate].
    intros [= <-]. constructor; [reflexivity|].
    rewrite <- (step_zero_input st st' Hst E). eapply IH; eassumption.
Qed.

End ZeroSamples.

(** On a generator that hands out the initial [w] and then only zeros, the
    two hundred iterations of the first version of the cells leave every
    component of [w] at its initial value, none of them within 0.5 of 3. *)
Example zero_samples_leave_w :
  let w0 := map Q2Qc [0.1; 0.4; 0.9; 0.7; 0.9; 0.3; 0.2; 0.5; 0.0; 0.7]%Q in
  exists st g,
    train variant1 w0 = Some (st, g)
    /\ w st = Vec w0
    /\ existsb (within (Q2Qc 0.5) (Q2Qc 3)) w0 = false.
Proof.
  intros w0.
  destruct (train_total variant1 w0) as (st & g & tr & E & Et & _ & Hn).
  exists st, g. split; [exact E|]. split; [|vm_compute; reflexivity].
  rewrite train_trace_run in Et.
  assert (F : Forall (fun x => x = repeat 0 (N variant1))
                (train_draws variant1 w0))
    by (vm_compute; repeat constructor).
  pose proof (run_zero_inputs variant1 _ _ _
                (init_loop_state variant1 w0) F Et) as K.
  rewrite Forall_forall in K.
  rewrite (K st (nth_error_In _ _ Hn)). rewrite init_state.
  reflexivity.
Qed.

(** ** The autograd example, for every input *)

Section Toy.

Lemma map2_map_same (f : Qc -> Qc -> Qc) (g h : Qc -> Qc) l :
  map2 f (map g l) (map h l) = map (fun e => f (g e) (h e)) l.
Proof. induction l as [|a l IH]; cbn; [reflexivity|]. now rewrite IH. Qed.

Lemma two_plus : two = 1 + 1.
Proof. apply Qc_is_canon. reflexivity. Qed.

(** Accumulating into a [.grad] that holds a gradient adds to it. *)
Lemma accumulate_some gs p old l :
  grad gs p = Some (Vec old) -> length old = length l ->
  accumulate gs p (Vec l) = Some (set_grad gs p (Vec (map2 Qcplus old l))).
Proof.
  intros E H. unfold accumulate. rewrite E.
  unfold iadd, add, broadcast. rewrite H, Nat.eqb_refl. cbn [bind same_shape].
  rewrite map2_length, H, Nat.eqb_refl by exact H. reflexivity.
Qed.

End Toy.

(** X1: for every input [x] and constants [c], [d], the autograd example
    [t = sum((x + c) * (x + c) + d)] evaluates to the sum of
    [(x_i + c)^2 + d], and [t.backward()] leaves [2 (x_i + c)] in [x.grad]:
    each of the two uses of [y] in [y*y] contributes [x_i + c].  With
    [x = 1] everywhere this is 12 for [c = 5] and 4 for [c = 1]. *)
Theorem toy_gradient l c d pb :
  let ps := {| pW := Vec l; pB := pb |} in
  eval ps (toy_graph c d)
  = Some (Scalar (total (map (fun e => (e + c) * (e + c) + d) l)))
  /\ backward ps (toy_graph c d) {| gW := None; gB := None |}
     = Some {| gW := Some (Vec (map (fun e => two * (e + c)) l));
               gB := None |}.
Proof.
  intros ps. unfold backward, toy_graph.
  assert (Ey : eval ps (Add (Leaf W) (Const (Scalar c)))
               = Some (Vec (map (fun e => e + c) l))) by reflexivity.
  remember (Add (Leaf W) (Const (Scalar c))) as y eqn:Hy.
  assert (Em : eval ps (Mul y y)
               = Some (Vec (map (fun e => (e + c) * (e + c)) l))).
  { cbn [eval]. rewrite Ey. cbn [bind]. unfold mul, broadcast.
    rewrite Nat.eqb_refl, map2_map_same. reflexivity. }
  remember (Mul y y) as m eqn:Hm.
  assert (Ev : eval ps (Add m (Const (Scalar d)))
               = Some (Vec (map (fun e => (e + c) * (e + c) + d) l))).
  { cbn [eval]. rewrite Em. cbn [bind]. unfold add, broadcast.
    rewrite map_map. reflexivity. }
  remember (Add m (Const (Scalar d))) as z eqn:Hz.
  cbn [eval backprop]. rewrite Ev. cbn [bind]. split; [reflexivity|].
  unfold Tensor.sum. cbn [numel data length Nat.eqb].
  cbn [fill_like tmap data total fold_right].
  subst z. cbn [backprop eval]. rewrite Em. cbn [bind unbroadcast].
  rewrite !length_map, Nat.eqb_refl.
  subst m. cbn [backprop]. rewrite Ey. cbn [bind].
  unfold mul, broadcast. rewrite !length_map, Nat.eqb_refl. cbn [bind].
  rewrite !map_map, map2_map_same.
  cbn [unbroadcast]. rewrite !length_map, Nat.eqb_refl.
  assert (By : forall g gs, length g = length l ->
                 backprop ps y (Vec g) gs = accumulate gs W (Vec g)).
  { intros g gs Hg. subst y.
    cbn [backprop eval bind value ps pW unbroadcast].
    rewrite <- Hg, Nat.eqb_refl.
    destruct (accumulate gs W (Vec g)); reflexivity. }
  rewrite By by (rewrite length_map; reflexivity).
  rewrite accumulate_cleared by (left; reflexivity).
  cbn [bind set_grad gB]. rewrite By by (rewrite length_map; reflexivity).
  rewrite accumulate_some with (old := map (fun e => (1 + 0) * (e + c)) l)
    by (reflexivity || (rewrite !length_map; reflexivity)).
  cbn [bind set_grad gB].
  rewrite map2_map_same.
  do 3 f_equal. f_equal. apply map_ext. intros e. rewrite two_plus. ring.
Qed.

(** ** Gradients accumulate *)



(** ** Squares and constant vectors *)

Section Squares.

Lemma Qc_mul_nonneg a c : 0 <= a -> 0 <= c -> 0 <= a * c.
Proof.
  intros Ha Hc. rewrite <- (Qcmult_0_l c).
  apply Qcmult_le_compat_r; assumption.
Qed.

Lemma Qc_sq_nonneg a : 0 <= a * a.
Proof.
  destruct (Qclt_le_dec a 0) as [H|H].
  - replace (a * a) with ((- a) * (- a)) by ring.
    assert (0 <= - a).
    { apply Qclt_le_weak in H. apply Qcopp_le_compat in H.
      replace (- 0) with 0 in H by ring. exact H. }
    apply Qc_mul_nonneg; assumption.
  - apply Qc_mul_nonneg; assumption.
Qed.

Lemma dot_repeat a n x :
  length x = n -> total (map2 Qcmult (repeat a n) x) = a * total x.
Proof.
  revert n; induction x as [|xi x IH]; intros [|n] H; simpl in *;
    try discriminate.
  - ring.
  - rewrite (IH n) by congruence. ring.
Qed.

End Squares.

(** ** The generating parameters are a fixed point *)

Section FixedPoint.

Lemma descend_no_error c l : forall x,
  length x = length l -> descend c l (grad_w_closed 0 x) = l.
Proof.
  unfold descend, grad_w_closed.
  induction l as [|a l IH]; intros [|xi x] H; simpl in *;
    try discriminate; [reflexivity|].
  rewrite IH by congruence. f_equal. ring.
Qed.

Lemma prediction_at_truth cfg x :
  length x = N cfg ->
  prediction (repeat (slope cfg) (N cfg)) (intercept cfg) x = truth cfg x.
Proof.
  intros H. unfold prediction, truth. now rewrite dot_repeat.
Qed.

End FixedPoint.

(** X3: when every component of [w] is the slope and [b] is the
    intercept of the function that generates the targets, then for every
    sample the loss is 0, both gradients are zero and the iteration leaves
    [w] and [b] as they are. *)
Theorem truth_is_fixed_point cfg x gw gb :
  length x = N cfg -> cleared (N cfg) gw -> cleared 1 gb ->
  let st := {| w := Vec (repeat (slope cfg) (N cfg));
               b := Vec [intercept cfg];
               w_grad := gw; b_grad := gb |} in
  loss cfg (Vec x) st = Some (Scalar 0)
  /\ grads_read cfg (Vec x) st
     = Some {| gW := Some (Vec (repeat 0 (N cfg))); gB := Some (Vec [0]) |}
  /\ step cfg (Vec x) st
     = Some {| w := w st; b := b st;
               w_grad := Some (Vec (repeat 0 (N cfg)));
               b_grad := Some (Vec [0]) |}.
Proof.
  intros Hx Hgw Hgb st.
  assert (Hw : length (repeat (slope cfg) (N cfg)) = N cfg)
    by apply repeat_length.
  assert (He : prediction (repeat (slope cfg) (N cfg)) (intercept cfg) x
               - truth cfg x = 0)
    by (rewrite prediction_at_truth by exact Hx; ring).
  split; [|split].
  - unfold loss. rewrite target_value by exact Hx. cbn [bind].
    unfold st, params_of. cbn [w b].
    rewrite eval_loss by congruence. rewrite He, Qcmult_0_l.
    reflexivity.
  - unfold st. rewrite grads_read_closed by assumption. rewrite He.
    unfold grad_w_closed, grad_b_closed.
    replace (two * 0) with 0 by ring.
    replace (map (fun xi => 0 * xi) x) with (repeat 0 (N cfg));
      [reflexivity|].
    rewrite <- Hx. clear. induction x as [|a x IH]; simpl;
      [reflexivity|]. rewrite <- IH. f_equal. ring.
  - unfold st. rewrite step_closed by assumption. rewrite He.
    cbn [w b]. rewrite descend_no_error by congruence.
    unfold grad_b_closed.
    replace (intercept cfg - learning_rate cfg * (two * 0))
      with (intercept cfg) by ring.
    reflexivity.
Qed.

Lemma truth_is_fixed_point_witness :
  let cfg := small RSum (Q2Qc 0.01) 2 in
  let st := {| w := Vec [Q2Qc 3; Q2Qc 3]; b := Vec [intercept cfg];
               w_grad := None; b_grad := None |} in
  step cfg (Vec [1; Q2Qc 2]) st
  = Some {| w := w st; b := b st;
            w_grad := Some (Vec [0; 0]); b_grad := Some (Vec [0]) |}.
Proof.
  intros cfg st.
  apply (truth_is_fixed_point cfg [1; Q2Qc 2] None None).
  - reflexivity.
  - left; reflexivity.
  - left; reflexivity.
Defined.

(** X4: under both reductions the loss of an iteration is the square of
    [y_hat - y], where [y] is the target the iteration computed: it is
    never negative, and it is 0 when the prediction equals the target. *)
Theorem loss_nonnegative cfg wl b0 x gw gb :
  length x = N cfg -> length wl = N cfg ->
  exists y v,
    target cfg (Vec x) = Some (Scalar y)
    /\ loss cfg (Vec x)
         {| w := Vec wl; b := Vec [b0]; w_grad := gw; b_grad := gb |}
       = Some (Scalar v)
    /\ v = (prediction wl b0 x - y) * (prediction wl b0 x - y)
    /\ 0 <= v
    /\ (prediction wl b0 x = y -> v = 0).
Proof.
  intros Hx Hw.
  exists (truth cfg x),
         ((prediction wl b0 x - truth cfg x)
          * (prediction wl b0 x - truth cfg x)).
  split; [apply target_value; exact Hx|].
  split.
  { unfold loss. rewrite target_value by exact Hx. cbn [bind].
    apply eval_loss. congruence. }
  split; [reflexivity|].
  split; [apply Qc_sq_nonneg|].
  intros ->. ring.
Qed.

Lemma loss_nonnegative_witness :
  exists y v,
    target (small RMean (Q2Qc 0.01) 2) (Vec [1; Q2Qc 2]) = Some (Scalar y)
    /\ loss (small RMean (Q2Qc 0.01) 2) (Vec [1; Q2Qc 2])
         {| w := Vec [Q2Qc 0.5; Q2Qc 0.25]; b := Vec [1];
            w_grad := None; b_grad := None |}
       = Some (Scalar v)
    /\ v = (prediction [Q2Qc 0.5; Q2Qc 0.25] 1 [1; Q2Qc 2] - y)
           * (prediction [Q2Qc 0.5; Q2Qc 0.25] 1 [1; Q2Qc 2] - y)
    /\ 0 <= v.
Proof.
  destruct (loss_nonnegative (small RMean (Q2Qc 0.01) 2)
              [Q2Qc 0.5; Q2Qc 0.25] 1 [1; Q2Qc 2] None None)
    as (y & v & T & E & Hv & H & _).
  - reflexivity.
  - reflexivity.
  - exists y, v. repeat split; assumption.
Defined.

(** X10: a sample whose size is not [N] makes the iteration fail, in
    the computation of the target, before any gradient is computed or any
    parameter is changed. *)
Theorem wrong_size_fails cfg x st :
  length x <> N cfg ->
  target cfg (Vec x) = None
  /\ loss cfg (Vec x) st = None
  /\ grads_read cfg (Vec x) st = None
  /\ step cfg (Vec x) st = None.
Proof.
  intros H.
  assert (T : target cfg (Vec x) = None).
  { unfold target, target_graph.
    cbn [eval bind mul broadcast Tensor.ones dot].
    rewrite length_map, repeat_length.
    destruct (Nat.eqb_spec (N cfg) (length x)) as [E|_]; [congruence|].
    reflexivity. }
  unfold step, grads_read, loss. rewrite T. cbn [bind]. auto.
Qed.

Lemma wrong_size_fails_witness :
  step (small RSum (Q2Qc 0.01) 2) (Vec [1; Q2Qc 2; 0])
    {| w := Vec [Q2Qc 0.5; Q2Qc 0.25]; b := Vec [1];
       w_grad := None; b_grad := None |}
  = None.
Proof.
  apply (wrong_size_fails (small RSum (Q2Qc 0.01) 2) [1; Q2Qc 2; 0]).
  cbn. discriminate.
Defined.

(** ** Shapes, the print cell and re-running the loop cell *)

(** X11: [w] is never resized and [b] always holds exactly one number: at
    the start of every iteration and at the end of [train], [w] has [N]
    elements and [b] one, so [b.item()] in the print cell succeeds, and
    (for [N > 0]) the cell prints the average of the components of [w]
    and the number held by [b]. *)
Theorem shapes_preserved {G : Type} {rng : Generator G} cfg (seed : G) :
  exists tr,
    train_trace cfg seed = Some tr
    /\ forall i s,
         nth_error tr i = Some s ->
         exists wl b0,
           w s = Vec wl /\ length wl = N cfg /\ b s = Vec [b0]
           /\ item (b s) = Some b0
           /\ ((0 < N cfg)%nat ->
               report s = Some (total wl / of_nat (N cfg), b0)).
Proof.
  destruct (train_trace_spec cfg seed) as (tr & E & _ & _ & Hall & _).
  exists tr. split; [exact E|].
  intros i s Hi. destruct (Hall i s Hi) as [[wl [Ew Hw]] [b0 Eb] _ _].
  exists wl, b0. repeat split; try assumption.
  - rewrite Eb. reflexivity.
  - intros _. unfold report. rewrite Ew, Eb. unfold mean, numel.
    cbn [data item bind]. rewrite Hw. reflexivity.
Qed.



(** ** Zero inputs *)


